(** * glair-vision-go: the request configuration ([Config]) and its URL helper

    A shallow embedding of the [glair] package's configuration file: the
    [Config] struct, its constructor [NewConfig], the URL builder
    [GetEndpointURL] and the five chained setters [WithCredentials],
    [WithClient], [WithBaseURL], [WithVersion], [WithLogger].

    The Go code works on [*Config]: a pointer that is either nil or the
    address of a struct that every alias of the pointer shares.  The
    embedding keeps that: configurations live in a store indexed by
    addresses, a pointer is an optional address, and every method is a
    computation over the store that either returns or panics. *)

From stdpp Require Import base gmap strings.

(** ** The Go runtime fragment the package relies on *)

Module Runtime.

(** Why a computation stopped.  [NilDereference] is Go's run-time panic
    "invalid memory address or nil pointer dereference".  [InvalidAddress]
    is the access of an address the store does not hold; Go's memory safety
    excludes it, and the theorems below only speak of live pointers. *)
Inductive panic : Type :=
| NilDereference
| InvalidAddress.

Inductive outcome (A : Type) : Type :=
| Ret (a : A)
| Panic (p : panic).
Arguments Ret {A} a.
Arguments Panic {A} p.

(** A computation over a state [S]: the outcome and the state it leaves.
    A panic keeps the writes made before it. *)
Definition M (S A : Type) : Type := S -> outcome A * S.

Definition ret {S A : Type} (a : A) : M S A := fun s => (Ret a, s).

Definition bind {S A B : Type} (m : M S A) (k : A -> M S B) : M S B :=
  fun s =>
    match m s with
    | (Ret a, s') => k a s'
    | (Panic p, s') => (Panic p, s')
    end.

Definition gets {S A : Type} (f : S -> A) : M S A := fun s => (Ret (f s), s).

End Runtime.

Export Runtime.

Notation "x <- m ;; k" := (bind m (fun x => k))
  (at level 100, m at next level, right associativity).
Notation "m ;;; k" := (bind m (fun _ => k))
  (at level 100, right associativity).

(** ** [strings.Join] of the Go standard library *)

Module Strings.

(** [Join(elems, sep)]: the empty string for no element, the element itself
    for one, and otherwise a builder that receives [elems[0]] and then, for
    every later element, [sep] followed by the element.  (The library's
    length-overflow panics need a result longer than the largest [int] and
    are left out.) *)
Definition Join (elems : list string) (sep : string) : string :=
  match elems with
  | [] => ""
  | [e] => e
  | e0 :: rest => fold_left (fun b s => (b +:+ sep) +:+ s) rest e0
  end.

End Strings.

(** ** Package [glair] *)

Module Glair.

(** *** Capability values *)

(** An [HTTPClient] interface value: the nil interface, the client that
    [net/http] initialises [http.DefaultClient] with (the non-nil pointer
    [&Client{}]), or some implementation supplied by the user, told apart by
    its identity. *)
Inductive HTTPClient : Type :=
| HTTPClient_nil
| http_DefaultClient
| HTTPClient_impl (id : positive).

(** Modelled from the spec: the log levels.  [LevelNone] is the one the
    configuration file names ("Defaults to no log"); the level type is
    declared in another file of the package, so the other levels are left as
    numbers. *)
Inductive Level : Type :=
| LevelNone
| LevelOther (n : nat).

(** Modelled from the spec: the [LeveledLogger] struct ("emit leveled log
    messages"), declared in another file of the package; the configuration
    file only shows its [Level] field, in a composite literal. *)
Record LeveledLogger : Type := mkLeveledLogger { Level_of : Level }.

(** A [Logger] interface value: the nil interface, a pointer to a
    [LeveledLogger], or some other implementation.  (The struct field of
    the same name is [Logger] below, so the type is [LoggerI].) *)
Inductive LoggerI : Type :=
| Logger_nil
| Logger_leveled (l : LeveledLogger)
| Logger_impl (id : positive).

#[global] Instance HTTPClient_eq_dec : EqDecision HTTPClient.
Proof. solve_decision. Defined.
#[global] Instance Level_eq_dec : EqDecision Level.
Proof. solve_decision. Defined.
#[global] Instance LeveledLogger_eq_dec : EqDecision LeveledLogger.
Proof. solve_decision. Defined.
#[global] Instance LoggerI_eq_dec : EqDecision LoggerI.
Proof. solve_decision. Defined.

(** *** The [Config] struct *)

Record Config : Type := mkConfig {
  Username : string;
  Password : string;
  ApiKey : string;
  BaseUrl : string;
  ApiVersion : string;
  Client : HTTPClient;
  Logger : LoggerI
}.

#[global] Instance Config_eq_dec : EqDecision Config.
Proof. solve_decision. Defined.

(** *** Pointers and the package state *)

Definition addr : Type := positive.

(** A [*Config]: [None] is nil. *)
Definition ptr : Type := option addr.

Definition nil : ptr := None.

(** The state a call can see: the configurations allocated so far and the
    two package-level variables [defaultClient] and [defaultLogger]. *)
Record World : Type := mkWorld {
  heap : gmap addr Config;
  defaultClient : HTTPClient;
  defaultLogger : LoggerI
}.

Definition with_heap (h : gmap addr Config) (w : World) : World :=
  {| heap := h; defaultClient := defaultClient w; defaultLogger := defaultLogger w |}.

Definition Go (A : Type) : Type := M World A.

(** [&Config{...}]: a fresh address holding the literal. *)
Definition new (c : Config) : Go ptr :=
  fun w =>
    let a := fresh (dom (heap w)) in
    (Ret (Some a), with_heap (<[a := c]> (heap w)) w).

(** [*p]: reading through a pointer. *)
Definition load (p : ptr) : Go Config :=
  fun w =>
    match p with
    | None => (Panic NilDereference, w)
    | Some a =>
        match heap w !! a with
        | Some c => (Ret c, w)
        | None => (Panic InvalidAddress, w)
        end
    end.

(** [p.f = v]: writing one field through a pointer; [upd] is the field
    update. *)
Definition store (p : ptr) (upd : Config -> Config) : Go unit :=
  fun w =>
    match p with
    | None => (Panic NilDereference, w)
    | Some a =>
        match heap w !! a with
        | Some c => (Ret tt, with_heap (<[a := upd c]> (heap w)) w)
        | None => (Panic InvalidAddress, w)
        end
    end.

(** [p.f]: reading one field through a pointer. *)
Definition field {A : Type} (p : ptr) (f : Config -> A) : Go A :=
  c <- load p ;; ret (f c).

(** The seven field updates. *)
Definition set_Username (v : string) (c : Config) : Config :=
  mkConfig v (Password c) (ApiKey c) (BaseUrl c) (ApiVersion c) (Client c) (Logger c).
Definition set_Password (v : string) (c : Config) : Config :=
  mkConfig (Username c) v (ApiKey c) (BaseUrl c) (ApiVersion c) (Client c) (Logger c).
Definition set_ApiKey (v : string) (c : Config) : Config :=
  mkConfig (Username c) (Password c) v (BaseUrl c) (ApiVersion c) (Client c) (Logger c).
Definition set_BaseUrl (v : string) (c : Config) : Config :=
  mkConfig (Username c) (Password c) (ApiKey c) v (ApiVersion c) (Client c) (Logger c).
Definition set_ApiVersion (v : string) (c : Config) : Config :=
  mkConfig (Username c) (Password c) (ApiKey c) (BaseUrl c) v (Client c) (Logger c).
Definition set_Client (v : HTTPClient) (c : Config) : Config :=
  mkConfig (Username c) (Password c) (ApiKey c) (BaseUrl c) (ApiVersion c) v (Logger c).
Definition set_Logger (v : LoggerI) (c : Config) : Config :=
  mkConfig (Username c) (Password c) (ApiKey c) (BaseUrl c) (ApiVersion c) (Client c) v.

(** *** Constants and package variables *)

Definition defaultUrl : string := "https://api.vision.glair.ai".
Definition defaultVersion : string := "v1".

(** The initialisers of the two package variables ([var], so part of the
    state: see [World]). *)
Definition defaultClient_init : HTTPClient := http_DefaultClient.
Definition defaultLogger_init : LoggerI :=
  Logger_leveled {| Level_of := LevelNone |}.

(** The state once the package is initialised: nothing allocated, both
    variables at their initialisers. *)
Definition init_world : World :=
  {| heap := ∅;
     defaultClient := defaultClient_init;
     defaultLogger := defaultLogger_init |}.

(** *** The functions of the file *)

Definition NewConfig (username password apiKey : string) : Go ptr :=
  cl <- gets defaultClient ;;
  lg <- gets defaultLogger ;;
  new {| Username := username;
         Password := password;
         ApiKey := apiKey;
         BaseUrl := defaultUrl;
         ApiVersion := defaultVersion;
         Client := cl;
         Logger := lg |}.

Definition GetEndpointURL (c : ptr) (service endpoint : string) : Go string :=
  base <- field c BaseUrl ;;
  version <- field c ApiVersion ;;
  let parts := [base; service; version; endpoint] in
  ret (Strings.Join parts "/").

Definition WithCredentials (c : ptr) (username password apiKey : string) : Go ptr :=
  if decide (c = nil) then ret nil
  else
    store c (set_Username username) ;;;
    store c (set_Password password) ;;;
    store c (set_ApiKey apiKey) ;;;
    ret c.

Definition WithClient (c : ptr) (client : HTTPClient) : Go ptr :=
  if decide (c = nil) then ret nil
  else store c (set_Client client) ;;; ret c.

Definition WithBaseURL (c : ptr) (url : string) : Go ptr :=
  if decide (c = nil) then ret nil
  else store c (set_BaseUrl url) ;;; ret c.

Definition WithVersion (c : ptr) (version : string) : Go ptr :=
  if decide (c = nil) then ret nil
  else store c (set_ApiVersion version) ;;; ret c.

Definition WithLogger (c : ptr) (logger : LoggerI) : Go ptr :=
  if decide (c = nil) then ret nil
  else store c (set_Logger logger) ;;; ret c.

End Glair.

Import Glair.

(** ** Vocabulary of the statements *)

Module Vocabulary.

(** One call of a setter, with its arguments.  The constructors carry the
    names the specification gives to the five "with" methods. *)
Inductive setter : Type :=
| SetCredentials (username password apiKey : string)
| SetTransport (client : HTTPClient)
| SetBaseURL (url : string)
| SetVersion (version : string)
| SetLogger (logger : LoggerI).

Definition call (s : setter) (c : ptr) : Go ptr :=
  match s with
  | SetCredentials username password apiKey =>
      WithCredentials c username password apiKey
  | SetTransport client => WithClient c client
  | SetBaseURL url => WithBaseURL c url
  | SetVersion version => WithVersion c version
  | SetLogger logger => WithLogger c logger
  end.

(** The configuration a setter leaves behind, field by field. *)
Definition effect (s : setter) (c : Config) : Config :=
  match s with
  | SetCredentials username password apiKey =>
      {| Username := username; Password := password; ApiKey := apiKey;
         BaseUrl := BaseUrl c; ApiVersion := ApiVersion c;
         Client := Client c; Logger := Logger c |}
  | SetTransport client =>
      {| Username := Username c; Password := Password c; ApiKey := ApiKey c;
         BaseUrl := BaseUrl c; ApiVersion := ApiVersion c;
         Client := client; Logger := Logger c |}
  | SetBaseURL url =>
      {| Username := Username c; Password := Password c; ApiKey := ApiKey c;
         BaseUrl := url; ApiVersion := ApiVersion c;
         Client := Client c; Logger := Logger c |}
  | SetVersion version =>
      {| Username := Username c; Password := Password c; ApiKey := ApiKey c;
         BaseUrl := BaseUrl c; ApiVersion := version;
         Client := Client c; Logger := Logger c |}
  | SetLogger logger =>
      {| Username := Username c; Password := Password c; ApiKey := ApiKey c;
         BaseUrl := BaseUrl c; ApiVersion := ApiVersion c;
         Client := Client c; Logger := logger |}
  end.

(** The seven fields of [Config], and the observation of one of them. *)
Inductive field_name : Type :=
| FUsername | FPassword | FApiKey | FBaseUrl | FApiVersion | FClient | FLogger.

Inductive value : Type :=
| VString (s : string)
| VClient (c : HTTPClient)
| VLogger (l : LoggerI).

#[global] Instance field_name_eq_dec : EqDecision field_name.
Proof. solve_decision. Defined.
#[global] Instance value_eq_dec : EqDecision value.
Proof. solve_decision. Defined.

Definition all_fields : list field_name :=
  [FUsername; FPassword; FApiKey; FBaseUrl; FApiVersion; FClient; FLogger].

Definition read (f : field_name) (c : Config) : value :=
  match f with
  | FUsername => VString (Username c)
  | FPassword => VString (Password c)
  | FApiKey => VString (ApiKey c)
  | FBaseUrl => VString (BaseUrl c)
  | FApiVersion => VString (ApiVersion c)
  | FClient => VClient (Client c)
  | FLogger => VLogger (Logger c)
  end.

(** The fields on which two configurations differ. *)
Definition changed_fields (c c' : Config) : list field_name :=
  filter (fun f => read f c <> read f c') all_fields.

(** The package variables still hold what the package initialised them
    with. *)
Definition package_vars_initial (w : World) : Prop :=
  defaultClient w = defaultClient_init /\ defaultLogger w = defaultLogger_init.

End Vocabulary.

Import Vocabulary.

(** ** Sequences of calls

    What a client of the file can do to the state: construct, set, build a
    URL.  [run] plays such a sequence and keeps the state. *)

Inductive op : Type :=
| OpNewConfig (username password apiKey : string)
| OpSetter (s : setter) (c : ptr)
| OpGetEndpointURL (c : ptr) (service endpoint : string).

Definition step (w : World) (o : op) : World :=
  match o with
  | OpNewConfig username password apiKey => (NewConfig username password apiKey w).2
  | OpSetter s c => (call s c w).2
  | OpGetEndpointURL c service endpoint => (GetEndpointURL c service endpoint w).2
  end.

Definition run (ops : list op) (w : World) : World := fold_left step ops w.

(** ** Sample states for the concrete instances *)

Definition sample_config : Config :=
  {| Username := ""; Password := ""; ApiKey := "";
     BaseUrl := defaultUrl; ApiVersion := defaultVersion;
     Client := defaultClient_init; Logger := defaultLogger_init |}.

Definition sample_addr : addr := 1%positive.

(** The state after [NewConfig("", "", "")] in a freshly initialised
    package, as in the passive-liveness example program. *)
Definition sample_world : World :=
  {| heap := {[ sample_addr := sample_config ]};
     defaultClient := defaultClient_init;
     defaultLogger := defaultLogger_init |}.

(** A second configuration: other credentials, client and logger, the same
    base URL and version. *)
Definition other_config : Config :=
  {| Username := "alice"; Password := "secret"; ApiKey := "key-1";
     BaseUrl := defaultUrl; ApiVersion := defaultVersion;
     Client := HTTPClient_impl 7; Logger := Logger_nil |}.

Definition other_world : World :=
  {| heap := {[ 5%positive := other_config ]};
     defaultClient := defaultClient_init;
     defaultLogger := defaultLogger_init |}.

(** ** Chains of setters, kinds of setters, clean segments *)

(** [c.s1(...).s2(...)...]: every setter is called on the reference the one
    before it returned. *)
Fixpoint chain (ss : list setter) (c : ptr) : Go ptr :=
  match ss with
  | [] => ret c
  | s :: ss' => c' <- call s c ;; chain ss' c'
  end.

(** Which of the five methods a call is. *)
Inductive kind : Type :=
| KCredentials | KTransport | KBaseURL | KVersion | KLogger.

#[global] Instance kind_eq_dec : EqDecision kind.
Proof. solve_decision. Defined.

Definition kind_of (s : setter) : kind :=
  match s with
  | SetCredentials _ _ _ => KCredentials
  | SetTransport _ => KTransport
  | SetBaseURL _ => KBaseURL
  | SetVersion _ => KVersion
  | SetLogger _ => KLogger
  end.

(** The byte of ["/"], 0x2F, lowest bit first. *)
Definition slash : Ascii.ascii :=
  Ascii.Ascii true true true true false true false false.

(** The segment holds no ["/"]. *)
Fixpoint slash_free (s : string) : bool :=
  match s with
  | EmptyString => true
  | String a s' => if Ascii.eqb a slash then false else slash_free s'
  end.

(** Both capabilities of a configuration are there: neither the client nor
    the logger is the nil interface. *)
Definition capabilities_set (c : Config) : Prop :=
  Client c <> HTTPClient_nil /\ Logger c <> Logger_nil.

(** The number of [NewConfig] calls in a sequence of calls. *)
Fixpoint allocations (ops : list op) : nat :=
  match ops with
  | [] => 0
  | OpNewConfig _ _ _ :: ops' => S (allocations ops')
  | _ :: ops' => allocations ops'
  end.

(** ** Strings *)

Section StringFacts.

Lemma append_cons (a : Ascii.ascii) (s t : string) :
  String a s +:+ t = String a (s +:+ t).
Proof. reflexivity. Qed.

Lemma append_assoc (s t u : string) : (s +:+ t) +:+ u = s +:+ (t +:+ u).
Proof.
  induction s as [|a s IH].
  - reflexivity.
  - rewrite !append_cons. now rewrite IH.
Qed.

Lemma length_append (s t : string) :
  String.length (s +:+ t) = String.length s + String.length t.
Proof.
  induction s as [|a s IH].
  - reflexivity.
  - rewrite append_cons. cbn [String.length]. now rewrite IH.
Qed.

(** Four parts joined: the parts in order, one separator between two
    neighbours. *)
Lemma Join4 (a b c d sep : string) :
  Strings.Join [a; b; c; d] sep
  = a +:+ sep +:+ b +:+ sep +:+ c +:+ sep +:+ d.
Proof.
  unfold Strings.Join. cbn [fold_left].
  now rewrite !append_assoc.
Qed.

End StringFacts.

(** ** Reading and writing through a live pointer *)

Section Store.

Variables (w : World) (a : addr) (c : Config).
Hypothesis live : heap w !! a = Some c.

Lemma load_live : load (Some a) w = (Ret c, w).
Proof using live. unfold load. now rewrite live. Qed.

Lemma field_live {A : Type} (f : Config -> A) :
  field (Some a) f w = (Ret (f c), w).
Proof using live. unfold field, bind. now rewrite load_live. Qed.

Lemma store_live (upd : Config -> Config) :
  store (Some a) upd w = (Ret tt, with_heap (<[a := upd c]> (heap w)) w).
Proof using live. unfold store. now rewrite live. Qed.

End Store.

Lemma with_heap_heap (h : gmap addr Config) (w : World) :
  heap (with_heap h w) = h.
Proof. reflexivity. Qed.

Lemma with_heap_twice (h h' : gmap addr Config) (w : World) :
  with_heap h' (with_heap h w) = with_heap h' w.
Proof. reflexivity. Qed.

(** A write leaves the written address live, holding the written value. *)
Lemma live_after_write (h : gmap addr Config) (w : World) (a : addr) (c : Config) :
  heap (with_heap (<[a := c]> h) w) !! a = Some c.
Proof. rewrite with_heap_heap. apply lookup_insert_eq. Qed.

(** Two writes to one address: the second one stays. *)
Lemma write_write (h : gmap addr Config) (w : World) (a : addr) (c c' : Config) :
  with_heap (<[a := c']> (heap (with_heap (<[a := c]> h) w))) (with_heap (<[a := c]> h) w)
  = with_heap (<[a := c']> h) w.
Proof. rewrite with_heap_heap, with_heap_twice. now rewrite insert_insert_eq. Qed.

(** ** What each function does *)

Ltac non_nil := case_decide; [discriminate|].

Ltac run_store :=
  unfold bind;
  repeat (erewrite store_live by (first [eassumption | apply live_after_write]);
          try rewrite write_write).

Section Setters.

Variables (w : World) (a : addr) (c : Config).
Hypothesis live : heap w !! a = Some c.

Lemma WithCredentials_live (username password apiKey : string) :
  WithCredentials (Some a) username password apiKey w
  = (Ret (Some a),
     with_heap (<[a := effect (SetCredentials username password apiKey) c]> (heap w)) w).
Proof using live. unfold WithCredentials. non_nil. now run_store. Qed.

Lemma WithClient_live (client : HTTPClient) :
  WithClient (Some a) client w
  = (Ret (Some a), with_heap (<[a := effect (SetTransport client) c]> (heap w)) w).
Proof using live. unfold WithClient. non_nil. now run_store. Qed.

Lemma WithBaseURL_live (url : string) :
  WithBaseURL (Some a) url w
  = (Ret (Some a), with_heap (<[a := effect (SetBaseURL url) c]> (heap w)) w).
Proof using live. unfold WithBaseURL. non_nil. now run_store. Qed.

Lemma WithVersion_live (version : string) :
  WithVersion (Some a) version w
  = (Ret (Some a), with_heap (<[a := effect (SetVersion version) c]> (heap w)) w).
Proof using live. unfold WithVersion. non_nil. now run_store. Qed.

Lemma WithLogger_live (logger : LoggerI) :
  WithLogger (Some a) logger w
  = (Ret (Some a), with_heap (<[a := effect (SetLogger logger) c]> (heap w)) w).
Proof using live. unfold WithLogger. non_nil. now run_store. Qed.

Lemma call_live (s : setter) :
  call s (Some a) w = (Ret (Some a), with_heap (<[a := effect s c]> (heap w)) w).
Proof using live.
  destruct s; cbn [call].
  - apply WithCredentials_live.
  - apply WithClient_live.
  - apply WithBaseURL_live.
  - apply WithVersion_live.
  - apply WithLogger_live.
Qed.

Lemma GetEndpointURL_live (service endpoint : string) :
  GetEndpointURL (Some a) service endpoint w
  = (Ret (Strings.Join [BaseUrl c; service; ApiVersion c; endpoint] "/"), w).
Proof using live.
  unfold GetEndpointURL, bind. rewrite !(field_live w a c live). reflexivity.
Qed.

End Setters.

Lemma call_nil (s : setter) (w : World) : call s nil w = (Ret nil, w).
Proof. now destruct s. Qed.

Lemma NewConfig_run (username password apiKey : string) (w : World) :
  NewConfig username password apiKey w
  = (Ret (Some (fresh (dom (heap w)))),
     with_heap (<[fresh (dom (heap w)) :=
                   {| Username := username; Password := password; ApiKey := apiKey;
                      BaseUrl := defaultUrl; ApiVersion := defaultVersion;
                      Client := defaultClient w; Logger := defaultLogger w |}]> (heap w)) w).
Proof. reflexivity. Qed.

Lemma fresh_not_live (w : World) : heap w !! fresh (dom (heap w)) = None.
Proof. apply not_elem_of_dom. apply is_fresh. Qed.

(** Setting a field to the value it gets anyway changes nothing more. *)
Lemma effect_idem (s : setter) (c : Config) : effect s (effect s c) = effect s c.
Proof. now destruct s. Qed.

Example sample_world_is_NewConfig :
  NewConfig "" "" "" init_world = (Ret (Some sample_addr), sample_world).
Proof. vm_compute. reflexivity. Qed.

(** ** The URL builder *)

(** C1. For a (non-nil) configuration [c] and any [service], [endpoint],
    [GetEndpointURL] returns exactly
    [c.BaseUrl + "/" + service + "/" + c.ApiVersion + "/" + endpoint] and
    leaves the state as it was.  Nothing is escaped, collapsed or trimmed:
    the result has the length of the four segments plus the three
    separators. *)
Theorem GetEndpointURL_concat
    (w : World) (a : addr) (c : Config) (service endpoint : string) :
  heap w !! a = Some c ->
  exists url : string,
    GetEndpointURL (Some a) service endpoint w = (Ret url, w) /\
    url = BaseUrl c +:+ "/" +:+ service +:+ "/" +:+ ApiVersion c +:+ "/" +:+ endpoint /\
    String.length url
    = String.length (BaseUrl c) + String.length service
      + String.length (ApiVersion c) + String.length endpoint + 3.
Proof.
  intros live. eexists. split; [|split].
  - rewrite (GetEndpointURL_live w a c live). reflexivity.
  - apply Join4.
  - rewrite Join4, !length_append. cbn [String.length]. lia.
Qed.

Lemma GetEndpointURL_concat_witness :
  exists url : string,
    GetEndpointURL (Some sample_addr) "ocr" "ktp" sample_world = (Ret url, sample_world) /\
    url = BaseUrl sample_config +:+ "/" +:+ "ocr" +:+ "/"
          +:+ ApiVersion sample_config +:+ "/" +:+ "ktp" /\
    String.length url
    = String.length (BaseUrl sample_config) + String.length "ocr"
      + String.length (ApiVersion sample_config) + String.length "ktp" + 3.
Proof.
  apply (GetEndpointURL_concat sample_world sample_addr sample_config "ocr" "ktp").
  reflexivity.
Defined.

(** Slashes and other characters inside the segments stay as they are. *)
Example GetEndpointURL_keeps_slashes :
  GetEndpointURL (Some sample_addr) "/ocr/" "a b/"
    (with_heap (<[sample_addr := set_BaseUrl "http://h/" sample_config]> (heap sample_world))
       sample_world)
  = (Ret "http://h///ocr//v1/a b/",
     with_heap (<[sample_addr := set_BaseUrl "http://h/" sample_config]> (heap sample_world))
       sample_world).
Proof. vm_compute. reflexivity. Qed.

(** C9. [GetEndpointURL] has no nil guard: on the nil configuration, for any
    [service] and [endpoint], the read of [c.BaseUrl] is a nil-pointer
    dereference; the call panics and returns no string. *)
Theorem GetEndpointURL_nil_panics (service endpoint : string) (w : World) :
  GetEndpointURL nil service endpoint w = (Panic NilDereference, w) /\
  forall url : string, (GetEndpointURL nil service endpoint w).1 <> Ret url.
Proof. split; [reflexivity | discriminate]. Qed.

(** C10. Two (non-nil) configurations that agree on [BaseUrl] and
    [ApiVersion] give the same URL for every [service] and [endpoint],
    whatever their credentials, client and logger and whatever else the two
    states hold; and the call changes neither state. *)
Theorem GetEndpointURL_noninterference
    (w1 w2 : World) (a1 a2 : addr) (c1 c2 : Config) (service endpoint : string) :
  heap w1 !! a1 = Some c1 ->
  heap w2 !! a2 = Some c2 ->
  BaseUrl c1 = BaseUrl c2 ->
  ApiVersion c1 = ApiVersion c2 ->
  (GetEndpointURL (Some a1) service endpoint w1).1
  = (GetEndpointURL (Some a2) service endpoint w2).1 /\
  (exists url, (GetEndpointURL (Some a1) service endpoint w1).1 = Ret url) /\
  (GetEndpointURL (Some a1) service endpoint w1).2 = w1 /\
  (GetEndpointURL (Some a2) service endpoint w2).2 = w2.
Proof.
  intros live1 live2 Hbase Hver.
  rewrite (GetEndpointURL_live w1 a1 c1 live1), (GetEndpointURL_live w2 a2 c2 live2).
  cbn [fst snd]. rewrite Hbase, Hver. repeat split. eauto.
Qed.

Lemma GetEndpointURL_noninterference_witness :
  (GetEndpointURL (Some sample_addr) "face" "liveness" sample_world).1
  = (GetEndpointURL (Some 5%positive) "face" "liveness" other_world).1 /\
  (exists url,
     (GetEndpointURL (Some sample_addr) "face" "liveness" sample_world).1 = Ret url) /\
  (GetEndpointURL (Some sample_addr) "face" "liveness" sample_world).2 = sample_world /\
  (GetEndpointURL (Some 5%positive) "face" "liveness" other_world).2 = other_world.
Proof.
  apply (GetEndpointURL_noninterference sample_world other_world sample_addr 5%positive
           sample_config other_config "face" "liveness"); reflexivity.
Defined.

(** ** The constructor *)

(** Every function of the file leaves the two package variables alone. *)
Lemma call_vars (s : setter) (p : ptr) (w : World) :
  package_vars_initial w -> package_vars_initial (call s p w).2.
Proof.
  intros [Hc Hl]. destruct p as [a|]; [|now rewrite call_nil].
  destruct (heap w !! a) as [c|] eqn:E.
  - now rewrite (call_live w a c E).
  - destruct s; cbn [call];
      unfold WithCredentials, WithClient, WithBaseURL, WithVersion, WithLogger;
      non_nil; unfold bind, store; rewrite E; now split.
Qed.

Lemma NewConfig_vars (username password apiKey : string) (w : World) :
  package_vars_initial w ->
  package_vars_initial (NewConfig username password apiKey w).2.
Proof. intros [Hc Hl]. now split. Qed.

Lemma init_world_vars : package_vars_initial init_world.
Proof. now split. Qed.

(** [GetEndpointURL] writes nothing, on any pointer. *)
Lemma GetEndpointURL_state (p : ptr) (service endpoint : string) (w : World) :
  (GetEndpointURL p service endpoint w).2 = w.
Proof.
  destruct p as [a|]; [|reflexivity].
  destruct (heap w !! a) as [c|] eqn:E.
  - now rewrite (GetEndpointURL_live w a c E).
  - unfold GetEndpointURL, field, bind, load. now rewrite E.
Qed.

Lemma step_vars (w : World) (o : op) :
  package_vars_initial w -> package_vars_initial (step w o).
Proof.
  intros Hw. destruct o; cbn [step].
  - now apply NewConfig_vars.
  - now apply call_vars.
  - now rewrite GetEndpointURL_state.
Qed.

Lemma run_vars (ops : list op) (w : World) :
  package_vars_initial w -> package_vars_initial (run ops w).
Proof.
  unfold run. revert w.
  induction ops as [|o ops IH]; intros w Hw; cbn [fold_left].
  - exact Hw.
  - apply IH. now apply step_vars.
Qed.

(** Whatever sequence of calls ran since the package was initialised, the
    package variables are the initial ones. *)
Lemma reachable_vars (ops : list op) : package_vars_initial (run ops init_world).
Proof. apply run_vars, init_world_vars. Qed.

(** C2. For all [username], [password], [apiKey], [NewConfig] returns a
    configuration whose [Username], [Password] and [ApiKey] are the three
    arguments, whose [BaseUrl] is ["https://api.vision.glair.ai"] and whose
    [ApiVersion] is ["v1"]. *)
Theorem NewConfig_fields (username password apiKey : string) (w : World) :
  exists (a : addr) (c : Config) (w' : World),
    NewConfig username password apiKey w = (Ret (Some a), w') /\
    heap w' !! a = Some c /\
    Username c = username /\
    Password c = password /\
    ApiKey c = apiKey /\
    BaseUrl c = "https://api.vision.glair.ai" /\
    ApiVersion c = "v1".
Proof.
  do 3 eexists. split; [apply NewConfig_run|].
  split; [apply live_after_write|].
  repeat split.
Qed.

(** C6. [NewConfig] never fails: for all [username], [password], [apiKey] it
    returns the address of a newly allocated configuration (it does not
    panic, the pointer is not nil, no earlier configuration is touched).
    The five string fields cannot be null in Go; [Client] and [Logger] hold
    the package defaults, which are non-nil as long as the package variables
    hold what the package initialised them with. *)
Theorem NewConfig_total_non_nil (username password apiKey : string) (w : World) :
  package_vars_initial w ->
  exists (a : addr) (c : Config),
    NewConfig username password apiKey w
    = (Ret (Some a), with_heap (<[a := c]> (heap w)) w) /\
    heap w !! a = None /\
    Client c = defaultClient w /\
    Logger c = defaultLogger w /\
    Client c = http_DefaultClient /\
    Logger c = Logger_leveled {| Level_of := LevelNone |} /\
    Client c <> HTTPClient_nil /\
    Logger c <> Logger_nil.
Proof.
  intros [Hc Hl]. do 2 eexists.
  split; [apply NewConfig_run|].
  split; [apply fresh_not_live|].
  cbn [Client Logger]. rewrite Hc, Hl.
  repeat split; discriminate.
Qed.

Lemma NewConfig_total_non_nil_witness :
  exists (a : addr) (c : Config),
    NewConfig "" "" "" init_world
    = (Ret (Some a), with_heap (<[a := c]> (heap init_world)) init_world) /\
    heap init_world !! a = None /\
    Client c = defaultClient init_world /\
    Logger c = defaultLogger init_world /\
    Client c = http_DefaultClient /\
    Logger c = Logger_leveled {| Level_of := LevelNone |} /\
    Client c <> HTTPClient_nil /\
    Logger c <> Logger_nil.
Proof.
  apply (NewConfig_total_non_nil "" "" "" init_world).
  split; reflexivity.
Defined.

(** C7. [NewConfig("u","p","k").GetEndpointURL("ocr","ktp")] returns
    ["https://api.vision.glair.ai/ocr/v1/ktp"], whatever was allocated
    before. *)
Theorem NewConfig_then_GetEndpointURL (w : World) :
  (cfg <- NewConfig "u" "p" "k" ;; GetEndpointURL cfg "ocr" "ktp") w
  = (Ret "https://api.vision.glair.ai/ocr/v1/ktp", (NewConfig "u" "p" "k" w).2).
Proof.
  unfold bind at 1. rewrite NewConfig_run. cbn [snd].
  erewrite GetEndpointURL_live by apply live_after_write.
  reflexivity.
Qed.

(** C8. For a configuration [cfg] built by [NewConfig] from any credentials,
    after [cfg.WithBaseURL("http://localhost:8080").WithVersion("v2")] the
    call [cfg.GetEndpointURL("face","liveness")] returns
    ["http://localhost:8080/face/v2/liveness"]. *)
Theorem chained_setters_then_GetEndpointURL
    (username password apiKey : string) (w : World) :
  ((cfg <- NewConfig username password apiKey ;;
    (c1 <- WithBaseURL cfg "http://localhost:8080" ;; WithVersion c1 "v2") ;;;
    GetEndpointURL cfg "face" "liveness") w).1
  = Ret "http://localhost:8080/face/v2/liveness".
Proof.
  unfold bind. rewrite NewConfig_run.
  erewrite WithBaseURL_live by apply live_after_write.
  erewrite WithVersion_live by apply live_after_write.
  erewrite GetEndpointURL_live by apply live_after_write.
  reflexivity.
Qed.

(** ** The setters *)

(** C3. Each of the five setters, called on the nil configuration with any
    arguments, returns nil, does not panic and leaves the whole state (every
    configuration and the package variables) as it was. *)
Theorem setters_nil_safe (w : World) :
  (forall username password apiKey : string,
     WithCredentials nil username password apiKey w = (Ret nil, w)) /\
  (forall client : HTTPClient, WithClient nil client w = (Ret nil, w)) /\
  (forall url : string, WithBaseURL nil url w = (Ret nil, w)) /\
  (forall version : string, WithVersion nil version w = (Ret nil, w)) /\
  (forall logger : LoggerI, WithLogger nil logger w = (Ret nil, w)).
Proof. repeat split. Qed.

(** C4. For a non-nil configuration, calling a setter twice in succession
    with the same arguments (on the same reference, or chained on the
    reference the first call returns) gives the same result and the same
    state as calling it once: the configuration holds the same seven fields,
    and nothing else differs either. *)
Theorem setter_idempotent (s : setter) (w : World) (a : addr) (c : Config) :
  heap w !! a = Some c ->
  (call s (Some a) ;;; call s (Some a)) w = call s (Some a) w /\
  (p <- call s (Some a) ;; call s p) w = call s (Some a) w /\
  exists c' : Config,
    heap (call s (Some a) w).2 !! a = Some c' /\
    heap ((call s (Some a) ;;; call s (Some a)) w).2 !! a = Some c' /\
    forall f : field_name,
      f ∈ all_fields ->
      read f <$> heap ((call s (Some a) ;;; call s (Some a)) w).2 !! a = Some (read f c').
Proof.
  intros live.
  assert (twice : (call s (Some a) ;;; call s (Some a)) w = call s (Some a) w).
  { unfold bind. rewrite (call_live w a c live).
    erewrite call_live by apply live_after_write.
    now rewrite write_write, effect_idem. }
  split; [exact twice|]. split.
  - unfold bind in *. rewrite (call_live w a c live) in *. exact twice.
  - rewrite twice, (call_live w a c live). cbn [snd].
    exists (effect s c). rewrite live_after_write. now repeat split.
Qed.

Lemma setter_idempotent_witness :
  (call (SetBaseURL "http://localhost:8080") (Some sample_addr) ;;;
   call (SetBaseURL "http://localhost:8080") (Some sample_addr)) sample_world
  = call (SetBaseURL "http://localhost:8080") (Some sample_addr) sample_world /\
  (p <- call (SetBaseURL "http://localhost:8080") (Some sample_addr) ;;
   call (SetBaseURL "http://localhost:8080") p) sample_world
  = call (SetBaseURL "http://localhost:8080") (Some sample_addr) sample_world /\
  exists c' : Config,
    heap (call (SetBaseURL "http://localhost:8080") (Some sample_addr) sample_world).2
      !! sample_addr = Some c' /\
    heap ((call (SetBaseURL "http://localhost:8080") (Some sample_addr) ;;;
           call (SetBaseURL "http://localhost:8080") (Some sample_addr)) sample_world).2
      !! sample_addr = Some c' /\
    forall f : field_name,
      f ∈ all_fields ->
      read f <$>
        heap ((call (SetBaseURL "http://localhost:8080") (Some sample_addr) ;;;
               call (SetBaseURL "http://localhost:8080") (Some sample_addr)) sample_world).2
          !! sample_addr
      = Some (read f c').
Proof.
  apply (setter_idempotent (SetBaseURL "http://localhost:8080")
           sample_world sample_addr sample_config).
  reflexivity.
Defined.

(** C5, as the specification words it, fails for [WithCredentials]: on the
    configuration of [NewConfig("", "", "")], [WithCredentials("u","p","k")]
    changes three fields, not one. *)
Lemma WithCredentials_changes_three_fields :
  exists c' : Config,
    heap (WithCredentials (Some sample_addr) "u" "p" "k" sample_world).2 !! sample_addr
    = Some c' /\
    changed_fields sample_config c' = [FUsername; FPassword; FApiKey] /\
    ~ length (changed_fields sample_config c') <= 1.
Proof.
  eexists. split; [|split].
  - vm_compute. reflexivity.
  - vm_compute. reflexivity.
  - vm_compute. lia.
Qed.

(** C5, amended.  For a non-nil configuration [c], every setter returns the
    reference it was called on and rewrites only the configuration behind
    it; every other configuration and the package variables stay as they
    were.  [WithCredentials] assigns the three fields [Username], [Password]
    and [ApiKey]; [WithClient], [WithBaseURL], [WithVersion] and [WithLogger]
    assign exactly one field each ([Client], [BaseUrl], [ApiVersion],
    [Logger]); every field not assigned keeps its value. *)
Theorem setters_frame (s : setter) (w : World) (a : addr) (c : Config) :
  heap w !! a = Some c ->
  exists c' : Config,
    call s (Some a) w = (Ret (Some a), with_heap (<[a := c']> (heap w)) w) /\
    (forall b : addr, b <> a -> heap (call s (Some a) w).2 !! b = heap w !! b) /\
    match s with
    | SetCredentials username password apiKey =>
        Username c' = username /\ Password c' = password /\ ApiKey c' = apiKey /\
        changed_fields c c' ⊆ [FUsername; FPassword; FApiKey] /\
        forall f, f ∉ [FUsername; FPassword; FApiKey] -> read f c' = read f c
    | SetTransport client =>
        Client c' = client /\
        changed_fields c c' ⊆ [FClient] /\
        forall f, f <> FClient -> read f c' = read f c
    | SetBaseURL url =>
        BaseUrl c' = url /\
        changed_fields c c' ⊆ [FBaseUrl] /\
        forall f, f <> FBaseUrl -> read f c' = read f c
    | SetVersion version =>
        ApiVersion c' = version /\
        changed_fields c c' ⊆ [FApiVersion] /\
        forall f, f <> FApiVersion -> read f c' = read f c
    | SetLogger logger =>
        Logger c' = logger /\
        changed_fields c c' ⊆ [FLogger] /\
        forall f, f <> FLogger -> read f c' = read f c
    end.
Proof.
  intros live. exists (effect s c).
  split; [apply (call_live w a c live)|]. split.
  - intros b Hb. rewrite (call_live w a c live). cbn [snd].
    rewrite with_heap_heap. now apply lookup_insert_ne.
  - assert (frame : forall l : list field_name,
               (forall f, f ∉ l -> read f (effect s c) = read f c) ->
               changed_fields c (effect s c) ⊆ l).
    { intros l Hl f Hf. apply list_elem_of_filter in Hf as [Hne _].
      destruct (decide (f ∈ l)) as [|Hn]; [assumption|].
      exfalso. apply Hne. symmetry. now apply Hl. }
    destruct s; cbn [effect Username Password ApiKey BaseUrl ApiVersion Client Logger].
    + assert (keep : forall f, f ∉ [FUsername; FPassword; FApiKey] ->
                 read f (effect (SetCredentials username password apiKey) c) = read f c).
      { intros f Hf. destruct f; try reflexivity; exfalso; apply Hf; set_solver. }
      repeat split; [now apply frame | exact keep].
    + assert (keep : forall f, f <> FClient ->
                 read f (effect (SetTransport client) c) = read f c).
      { intros f Hf. now destruct f. }
      repeat split; [|exact keep].
      apply frame. intros f Hf. apply keep. set_solver.
    + assert (keep : forall f, f <> FBaseUrl ->
                 read f (effect (SetBaseURL url) c) = read f c).
      { intros f Hf. now destruct f. }
      repeat split; [|exact keep].
      apply frame. intros f Hf. apply keep. set_solver.
    + assert (keep : forall f, f <> FApiVersion ->
                 read f (effect (SetVersion version) c) = read f c).
      { intros f Hf. now destruct f. }
      repeat split; [|exact keep].
      apply frame. intros f Hf. apply keep. set_solver.
    + assert (keep : forall f, f <> FLogger ->
                 read f (effect (SetLogger logger) c) = read f c).
      { intros f Hf. now destruct f. }
      repeat split; [|exact keep].
      apply frame. intros f Hf. apply keep. set_solver.
Qed.

Lemma setters_frame_witness :
  exists c' : Config,
    call (SetCredentials "u" "p" "k") (Some sample_addr) sample_world
    = (Ret (Some sample_addr),
       with_heap (<[sample_addr := c']> (heap sample_world)) sample_world) /\
    (forall b : addr,
       b <> sample_addr ->
       heap (call (SetCredentials "u" "p" "k") (Some sample_addr) sample_world).2 !! b
       = heap sample_world !! b) /\
    Username c' = "u" /\ Password c' = "p" /\ ApiKey c' = "k" /\
    changed_fields sample_config c' ⊆ [FUsername; FPassword; FApiKey] /\
    forall f, f ∉ [FUsername; FPassword; FApiKey] -> read f c' = read f sample_config.
Proof.
  apply (setters_frame (SetCredentials "u" "p" "k") sample_world sample_addr sample_config).
  reflexivity.
Defined.


(** ** Chains and compositions of setters *)

Lemma with_heap_same (w : World) (a : addr) (c : Config) :
  heap w !! a = Some c -> with_heap (<[a := c]> (heap w)) w = w.
Proof. intros live. rewrite (insert_id _ _ _ live). now destruct w. Qed.

(** A setter called through an address the store does not hold stops at its
    first write and changes nothing. *)
Lemma call_dangling (s : setter) (w : World) (a : addr) :
  heap w !! a = None -> call s (Some a) w = (Panic InvalidAddress, w).
Proof.
  intros E. destruct s; cbn [call];
    unfold WithCredentials, WithClient, WithBaseURL, WithVersion, WithLogger;
    non_nil; unfold bind, store; now rewrite E.
Qed.

(** Two setters in a row on one live configuration. *)
Lemma call_call (s1 s2 : setter) (w : World) (a : addr) (c : Config) :
  heap w !! a = Some c ->
  (call s1 (Some a) ;;; call s2 (Some a)) w
  = (Ret (Some a), with_heap (<[a := effect s2 (effect s1 c)]> (heap w)) w).
Proof.
  intros live. unfold bind. rewrite (call_live w a c live).
  erewrite call_live by apply live_after_write.
  now rewrite write_write.
Qed.

Lemma chain_run (ss : list setter) (w : World) (a : addr) (c : Config) :
  heap w !! a = Some c ->
  chain ss (Some a) w
  = (Ret (Some a),
     with_heap (<[a := foldl (fun c' s => effect s c') c ss]> (heap w)) w).
Proof.
  revert w c. induction ss as [|s ss IH]; intros w c live; cbn [chain foldl].
  - unfold ret. now rewrite with_heap_same.
  - unfold bind. rewrite (call_live w a c live).
    rewrite (IH _ (effect s c)) by apply live_after_write.
    now rewrite write_write.
Qed.

(** X1. A chain of any number of setters on a non-nil configuration never
    panics and returns the reference it started from; it rewrites that one
    configuration (to the result of the setters' assignments, in order) and
    leaves every other configuration and the package variables as they
    were. *)
Theorem chain_returns_receiver (ss : list setter) (w : World) (a : addr) (c : Config) :
  heap w !! a = Some c ->
  exists c' : Config,
    chain ss (Some a) w = (Ret (Some a), with_heap (<[a := c']> (heap w)) w) /\
    c' = foldl (fun c0 s => effect s c0) c ss /\
    heap (chain ss (Some a) w).2 !! a = Some c' /\
    (forall b : addr, b <> a -> heap (chain ss (Some a) w).2 !! b = heap w !! b) /\
    defaultClient (chain ss (Some a) w).2 = defaultClient w /\
    defaultLogger (chain ss (Some a) w).2 = defaultLogger w.
Proof.
  intros live. eexists. rewrite (chain_run ss w a c live). cbn [snd].
  split; [reflexivity|]. split; [reflexivity|].
  split; [apply live_after_write|].
  split; [|now split].
  intros b Hb. rewrite with_heap_heap. now apply lookup_insert_ne.
Qed.

Lemma chain_returns_receiver_witness :
  exists c' : Config,
    chain [SetBaseURL "http://localhost:8080"; SetVersion "v2"; SetCredentials "u" "p" "k"]
      (Some sample_addr) sample_world
    = (Ret (Some sample_addr),
       with_heap (<[sample_addr := c']> (heap sample_world)) sample_world) /\
    c' = foldl (fun c0 s => effect s c0) sample_config
           [SetBaseURL "http://localhost:8080"; SetVersion "v2"; SetCredentials "u" "p" "k"] /\
    heap (chain [SetBaseURL "http://localhost:8080"; SetVersion "v2";
                 SetCredentials "u" "p" "k"] (Some sample_addr) sample_world).2
      !! sample_addr = Some c' /\
    (forall b : addr,
       b <> sample_addr ->
       heap (chain [SetBaseURL "http://localhost:8080"; SetVersion "v2";
                    SetCredentials "u" "p" "k"] (Some sample_addr) sample_world).2 !! b
       = heap sample_world !! b) /\
    defaultClient
      (chain [SetBaseURL "http://localhost:8080"; SetVersion "v2";
              SetCredentials "u" "p" "k"] (Some sample_addr) sample_world).2
    = defaultClient sample_world /\
    defaultLogger
      (chain [SetBaseURL "http://localhost:8080"; SetVersion "v2";
              SetCredentials "u" "p" "k"] (Some sample_addr) sample_world).2
    = defaultLogger sample_world.
Proof.
  apply (chain_returns_receiver
           [SetBaseURL "http://localhost:8080"; SetVersion "v2"; SetCredentials "u" "p" "k"]
           sample_world sample_addr sample_config).
  reflexivity.
Defined.

Lemma chain_nil (ss : list setter) (w : World) : chain ss nil w = (Ret nil, w).
Proof.
  induction ss as [|s ss IH]; cbn [chain]; [reflexivity|].
  unfold bind. now rewrite call_nil.
Qed.

(** X2. A chain of any number of setters on the nil configuration returns
    nil and changes nothing; the failure only shows when the result is used
    to build a URL, which panics. *)
Theorem chain_on_nil (ss : list setter) (service endpoint : string) (w : World) :
  chain ss nil w = (Ret nil, w) /\
  (c <- chain ss nil ;; GetEndpointURL c service endpoint) w = (Panic NilDereference, w).
Proof.
  split; [apply chain_nil|].
  unfold bind. now rewrite chain_nil.
Qed.

(** X3. Last write wins: of two calls of the same setter in a row on a
    non-nil configuration, only the second one shows; result and state are
    those of the second call alone. *)
Theorem same_setter_last_wins (s1 s2 : setter) (w : World) (a : addr) (c : Config) :
  heap w !! a = Some c ->
  kind_of s1 = kind_of s2 ->
  (call s1 (Some a) ;;; call s2 (Some a)) w = call s2 (Some a) w /\
  (p <- call s1 (Some a) ;; call s2 p) w = call s2 (Some a) w.
Proof.
  intros live Hk.
  assert (E : (call s1 (Some a) ;;; call s2 (Some a)) w = call s2 (Some a) w).
  { rewrite (call_call s1 s2 w a c live), (call_live w a c live).
    destruct s1, s2; try discriminate Hk; reflexivity. }
  split; [exact E|].
  unfold bind in *. rewrite (call_live w a c live) in *. exact E.
Qed.

Lemma same_setter_last_wins_witness :
  (call (SetBaseURL "http://a") (Some sample_addr) ;;;
   call (SetBaseURL "http://b") (Some sample_addr)) sample_world
  = call (SetBaseURL "http://b") (Some sample_addr) sample_world /\
  (p <- call (SetBaseURL "http://a") (Some sample_addr) ;;
   call (SetBaseURL "http://b") p) sample_world
  = call (SetBaseURL "http://b") (Some sample_addr) sample_world.
Proof.
  apply (same_setter_last_wins (SetBaseURL "http://a") (SetBaseURL "http://b")
           sample_world sample_addr sample_config); reflexivity.
Defined.

(** X4. Two different setters commute: on a non-nil configuration, calling
    them in either order gives the same result and the same state. *)
Theorem different_setters_commute (s1 s2 : setter) (w : World) (a : addr) (c : Config) :
  heap w !! a = Some c ->
  kind_of s1 <> kind_of s2 ->
  (p <- call s1 (Some a) ;; call s2 p) w = (p <- call s2 (Some a) ;; call s1 p) w.
Proof.
  intros live Hk.
  assert (E : (call s1 (Some a) ;;; call s2 (Some a)) w
              = (call s2 (Some a) ;;; call s1 (Some a)) w).
  { rewrite !(call_call _ _ w a c live).
    destruct s1, s2; try reflexivity; exfalso; now apply Hk. }
  unfold bind in *. rewrite (call_live w a c live) in *.
  rewrite (call_live w a c live) in *. exact E.
Qed.

Lemma different_setters_commute_witness :
  (p <- call (SetBaseURL "http://localhost:8080") (Some sample_addr) ;;
   call (SetVersion "v2") p) sample_world
  = (p <- call (SetVersion "v2") (Some sample_addr) ;;
     call (SetBaseURL "http://localhost:8080") p) sample_world.
Proof.
  apply (different_setters_commute (SetBaseURL "http://localhost:8080") (SetVersion "v2")
           sample_world sample_addr sample_config); [reflexivity | discriminate].
Defined.

(** ** Setters and the URL *)

(** The URL of a live configuration after one setter: built from the
    configuration the setter leaves. *)
Lemma URL_after_call
    (s : setter) (w : World) (a : addr) (c : Config) (service endpoint : string) :
  heap w !! a = Some c ->
  ((call s (Some a) ;;; GetEndpointURL (Some a) service endpoint) w).1
  = Ret (Strings.Join [BaseUrl (effect s c); service; ApiVersion (effect s c); endpoint] "/").
Proof.
  intros live. unfold bind. rewrite (call_live w a c live).
  now erewrite GetEndpointURL_live by apply live_after_write.
Qed.

(** X5. Credentials, client and logger never reach the URL: on a non-nil
    configuration, [GetEndpointURL] returns the same string after
    [WithCredentials], [WithClient] or [WithLogger] (with any arguments) as
    before it. *)
Theorem URL_ignores_other_setters
    (w : World) (a : addr) (c : Config) (service endpoint : string) :
  heap w !! a = Some c ->
  (forall username password apiKey : string,
     ((WithCredentials (Some a) username password apiKey ;;;
       GetEndpointURL (Some a) service endpoint) w).1
     = (GetEndpointURL (Some a) service endpoint w).1) /\
  (forall client : HTTPClient,
     ((WithClient (Some a) client ;;; GetEndpointURL (Some a) service endpoint) w).1
     = (GetEndpointURL (Some a) service endpoint w).1) /\
  (forall logger : LoggerI,
     ((WithLogger (Some a) logger ;;; GetEndpointURL (Some a) service endpoint) w).1
     = (GetEndpointURL (Some a) service endpoint w).1).
Proof.
  intros live. rewrite (GetEndpointURL_live w a c live). cbn [fst].
  split; [|split].
  - intros username password apiKey.
    apply (URL_after_call (SetCredentials username password apiKey) w a c _ _ live).
  - intros client. apply (URL_after_call (SetTransport client) w a c _ _ live).
  - intros logger. apply (URL_after_call (SetLogger logger) w a c _ _ live).
Qed.

Lemma URL_ignores_other_setters_witness :
  (forall username password apiKey : string,
     ((WithCredentials (Some sample_addr) username password apiKey ;;;
       GetEndpointURL (Some sample_addr) "ocr" "ktp") sample_world).1
     = (GetEndpointURL (Some sample_addr) "ocr" "ktp" sample_world).1) /\
  (forall client : HTTPClient,
     ((WithClient (Some sample_addr) client ;;;
       GetEndpointURL (Some sample_addr) "ocr" "ktp") sample_world).1
     = (GetEndpointURL (Some sample_addr) "ocr" "ktp" sample_world).1) /\
  (forall logger : LoggerI,
     ((WithLogger (Some sample_addr) logger ;;;
       GetEndpointURL (Some sample_addr) "ocr" "ktp") sample_world).1
     = (GetEndpointURL (Some sample_addr) "ocr" "ktp" sample_world).1).
Proof.
  apply (URL_ignores_other_setters sample_world sample_addr sample_config "ocr" "ktp").
  reflexivity.
Defined.

(** X6. For a non-nil configuration and any [url], [version], [service] and
    [endpoint]: after [WithBaseURL(url)] and [WithVersion(version)], chained
    in either order, [GetEndpointURL(service, endpoint)] on the original
    reference returns [url + "/" + service + "/" + version + "/" + endpoint];
    after [WithBaseURL(url)] alone, the version is the one the configuration
    had. *)
Theorem URL_follows_setters
    (w : World) (a : addr) (c : Config) (url version service endpoint : string) :
  heap w !! a = Some c ->
  (((c1 <- WithBaseURL (Some a) url ;; WithVersion c1 version) ;;;
    GetEndpointURL (Some a) service endpoint) w).1
  = Ret (url +:+ "/" +:+ service +:+ "/" +:+ version +:+ "/" +:+ endpoint) /\
  (((c1 <- WithVersion (Some a) version ;; WithBaseURL c1 url) ;;;
    GetEndpointURL (Some a) service endpoint) w).1
  = Ret (url +:+ "/" +:+ service +:+ "/" +:+ version +:+ "/" +:+ endpoint) /\
  ((WithBaseURL (Some a) url ;;; GetEndpointURL (Some a) service endpoint) w).1
  = Ret (url +:+ "/" +:+ service +:+ "/" +:+ ApiVersion c +:+ "/" +:+ endpoint) /\
  ((WithVersion (Some a) version ;;; GetEndpointURL (Some a) service endpoint) w).1
  = Ret (BaseUrl c +:+ "/" +:+ service +:+ "/" +:+ version +:+ "/" +:+ endpoint).
Proof.
  intros live. rewrite <- !Join4. repeat split.
  - unfold bind. rewrite (WithBaseURL_live w a c live).
    erewrite WithVersion_live by apply live_after_write.
    now erewrite GetEndpointURL_live by apply live_after_write.
  - unfold bind. rewrite (WithVersion_live w a c live).
    erewrite WithBaseURL_live by apply live_after_write.
    now erewrite GetEndpointURL_live by apply live_after_write.
  - apply (URL_after_call (SetBaseURL url) w a c _ _ live).
  - apply (URL_after_call (SetVersion version) w a c _ _ live).
Qed.

Lemma URL_follows_setters_witness :
  (((c1 <- WithBaseURL (Some sample_addr) "http://h" ;; WithVersion c1 "v9") ;;;
    GetEndpointURL (Some sample_addr) "face" "match") sample_world).1
  = Ret ("http://h" +:+ "/" +:+ "face" +:+ "/" +:+ "v9" +:+ "/" +:+ "match") /\
  (((c1 <- WithVersion (Some sample_addr) "v9" ;; WithBaseURL c1 "http://h") ;;;
    GetEndpointURL (Some sample_addr) "face" "match") sample_world).1
  = Ret ("http://h" +:+ "/" +:+ "face" +:+ "/" +:+ "v9" +:+ "/" +:+ "match") /\
  ((WithBaseURL (Some sample_addr) "http://h" ;;;
    GetEndpointURL (Some sample_addr) "face" "match") sample_world).1
  = Ret ("http://h" +:+ "/" +:+ "face" +:+ "/" +:+ ApiVersion sample_config
         +:+ "/" +:+ "match") /\
  ((WithVersion (Some sample_addr) "v9" ;;;
    GetEndpointURL (Some sample_addr) "face" "match") sample_world).1
  = Ret (BaseUrl sample_config +:+ "/" +:+ "face" +:+ "/" +:+ "v9" +:+ "/" +:+ "match").
Proof.
  apply (URL_follows_setters sample_world sample_addr sample_config
           "http://h" "v9" "face" "match").
  reflexivity.
Defined.

(** ** Which calls give which URL *)

Lemma slash_literal : String slash EmptyString = "/".
Proof. reflexivity. Qed.

Lemma append_cancel_l (s t u : string) : s +:+ t = s +:+ u -> t = u.
Proof.
  induction s as [|x s IH]; intros E.
  - exact E.
  - rewrite !append_cons in E. injection E as E. now apply IH.
Qed.

Lemma append_slash (t : string) : "/" +:+ t = String slash t.
Proof. reflexivity. Qed.

(** A string cut at its first ["/"]: the cut is unique. *)
Lemma first_slash_unique (s1 s2 t1 t2 : string) :
  slash_free s1 = true ->
  slash_free s2 = true ->
  s1 +:+ String slash t1 = s2 +:+ String slash t2 ->
  s1 = s2 /\ t1 = t2.
Proof.
  revert s2. induction s1 as [|x s1 IH]; intros [|y s2] F1 F2 E.
  - change (String slash t1 = String slash t2) in E. now injection E as E.
  - rewrite append_cons in E. change (String slash t1 = String y (s2 +:+ String slash t2)) in E.
    injection E as Ey _. subst y. cbn [slash_free] in F2.
    now rewrite Ascii.eqb_refl in F2.
  - rewrite append_cons in E. change (String x (s1 +:+ String slash t1) = String slash t2) in E.
    injection E as Ex _. subst x. cbn [slash_free] in F1.
    now rewrite Ascii.eqb_refl in F1.
  - rewrite !append_cons in E. injection E as Exy E. subst y.
    cbn [slash_free] in F1, F2.
    destruct (Ascii.eqb x slash); [discriminate F1|].
    destruct (IH s2 F1 F2 E) as [-> ->]. now split.
Qed.

(** X7. With service names that hold no ["/"], the URL tells the call: if
    [GetEndpointURL] returns the same string for [(service1, endpoint1)] and
    [(service2, endpoint2)] on one non-nil configuration, then the services
    are equal and the endpoints are equal. *)
Theorem URL_determines_call
    (w : World) (a : addr) (c : Config) (service1 endpoint1 service2 endpoint2 : string) :
  heap w !! a = Some c ->
  slash_free service1 = true ->
  slash_free service2 = true ->
  (GetEndpointURL (Some a) service1 endpoint1 w).1
  = (GetEndpointURL (Some a) service2 endpoint2 w).1 ->
  service1 = service2 /\ endpoint1 = endpoint2.
Proof.
  intros live F1 F2 E.
  rewrite !(GetEndpointURL_live w a c live), !Join4 in E. cbn [fst] in E.
  injection E as E.
  apply append_cancel_l in E. rewrite !append_slash in E. injection E as E.
  destruct (first_slash_unique _ _ _ _ F1 F2 E) as [Hs Ht].
  split; [exact Hs|].
  apply append_cancel_l in Ht. now injection Ht.
Qed.

Lemma URL_determines_call_witness : "ocr" = "ocr" /\ "ktp" = "ktp".
Proof.
  apply (URL_determines_call sample_world sample_addr sample_config "ocr" "ktp" "ocr" "ktp");
    reflexivity.
Defined.

(** X8. With a ["/"] inside a segment the URL no longer tells the call:
    on any non-nil configuration, the service
    [service + "/" + c.ApiVersion + "/" + mid] with endpoint [endpoint] and
    the (different) service [service] with endpoint
    [mid + "/" + c.ApiVersion + "/" + endpoint] give the same URL. *)
Theorem URL_collision
    (w : World) (a : addr) (c : Config) (service mid endpoint : string) :
  heap w !! a = Some c ->
  (GetEndpointURL (Some a) (service +:+ "/" +:+ ApiVersion c +:+ "/" +:+ mid) endpoint w).1
  = (GetEndpointURL (Some a) service (mid +:+ "/" +:+ ApiVersion c +:+ "/" +:+ endpoint) w).1 /\
  service +:+ "/" +:+ ApiVersion c +:+ "/" +:+ mid <> service.
Proof.
  intros live. split.
  - rewrite !(GetEndpointURL_live w a c live), !Join4. cbn [fst].
    now rewrite !append_assoc.
  - intros E. apply (f_equal String.length) in E.
    rewrite !length_append in E. cbn [String.length] in E. lia.
Qed.

Lemma URL_collision_witness :
  (GetEndpointURL (Some sample_addr)
     ("ocr" +:+ "/" +:+ ApiVersion sample_config +:+ "/" +:+ "ktp") "x" sample_world).1
  = (GetEndpointURL (Some sample_addr) "ocr"
       ("ktp" +:+ "/" +:+ ApiVersion sample_config +:+ "/" +:+ "x") sample_world).1 /\
  "ocr" +:+ "/" +:+ ApiVersion sample_config +:+ "/" +:+ "ktp" <> "ocr".
Proof.
  apply (URL_collision sample_world sample_addr sample_config "ocr" "ktp" "x").
  reflexivity.
Defined.

(** ** Several configurations *)

(** What one [NewConfig] call does to the store. *)
Lemma NewConfig_alloc (username password apiKey : string) (w : World) :
  exists (a : addr) (c : Config) (w' : World),
    NewConfig username password apiKey w = (Ret (Some a), w') /\
    heap w !! a = None /\
    heap w' = <[a := c]> (heap w) /\
    BaseUrl c = defaultUrl /\
    ApiVersion c = defaultVersion.
Proof.
  do 3 eexists. split; [apply NewConfig_run|].
  split; [apply fresh_not_live|]. now repeat split.
Qed.

(** X9. Two calls of [NewConfig] give two different, non-nil references to
    two separate structs: whatever setter is then called on the first, the
    second still produces the URL of the defaults. *)
Theorem NewConfig_configurations_are_separate
    (username1 password1 apiKey1 username2 password2 apiKey2 : string)
    (s : setter) (service endpoint : string) (w : World) :
  exists a1 a2 : addr,
    a1 <> a2 /\
    ((c1 <- NewConfig username1 password1 apiKey1 ;;
      c2 <- NewConfig username2 password2 apiKey2 ;;
      ret (c1, c2)) w).1 = Ret (Some a1, Some a2) /\
    ((c1 <- NewConfig username1 password1 apiKey1 ;;
      c2 <- NewConfig username2 password2 apiKey2 ;;
      call s c1 ;;;
      GetEndpointURL c2 service endpoint) w).1
    = Ret ("https://api.vision.glair.ai" +:+ "/" +:+ service +:+ "/" +:+ "v1"
           +:+ "/" +:+ endpoint).
Proof.
  destruct (NewConfig_alloc username1 password1 apiKey1 w)
    as (a1 & c1 & w1 & E1 & F1 & H1 & _ & _).
  destruct (NewConfig_alloc username2 password2 apiKey2 w1)
    as (a2 & c2 & w2 & E2 & F2 & H2 & Hb & Hv).
  assert (Hne : a1 <> a2).
  { intros ->. rewrite H1, lookup_insert_eq in F2. discriminate F2. }
  assert (live1 : heap w2 !! a1 = Some c1).
  { rewrite H2, lookup_insert_ne by congruence. rewrite H1. apply lookup_insert_eq. }
  exists a1, a2. split; [exact Hne|].
  unfold bind. rewrite E1, E2. split; [reflexivity|].
  rewrite (call_live w2 a1 c1 live1).
  erewrite (GetEndpointURL_live _ a2 c2).
  - rewrite Join4, Hb, Hv. reflexivity.
  - rewrite with_heap_heap, lookup_insert_ne by exact Hne.
    rewrite H2. apply lookup_insert_eq.
Qed.

(** ** Setters and the constructor *)

(** X10. Writing back what is there changes nothing: on a non-nil
    configuration, each setter called with the values the configuration
    already holds returns the reference and leaves the whole state as it
    was. *)
Theorem setters_write_back (w : World) (a : addr) (c : Config) :
  heap w !! a = Some c ->
  WithCredentials (Some a) (Username c) (Password c) (ApiKey c) w = (Ret (Some a), w) /\
  WithClient (Some a) (Client c) w = (Ret (Some a), w) /\
  WithBaseURL (Some a) (BaseUrl c) w = (Ret (Some a), w) /\
  WithVersion (Some a) (ApiVersion c) w = (Ret (Some a), w) /\
  WithLogger (Some a) (Logger c) w = (Ret (Some a), w).
Proof.
  intros live.
  rewrite (WithCredentials_live w a c live), (WithClient_live w a c live),
    (WithBaseURL_live w a c live), (WithVersion_live w a c live),
    (WithLogger_live w a c live).
  assert (same : forall c', c' = c -> with_heap (<[a := c']> (heap w)) w = w).
  { intros c' ->. now apply with_heap_same. }
  repeat split; f_equal; apply same; now destruct c.
Qed.

Lemma setters_write_back_witness :
  WithCredentials (Some sample_addr) (Username sample_config) (Password sample_config)
    (ApiKey sample_config) sample_world = (Ret (Some sample_addr), sample_world) /\
  WithClient (Some sample_addr) (Client sample_config) sample_world
  = (Ret (Some sample_addr), sample_world) /\
  WithBaseURL (Some sample_addr) (BaseUrl sample_config) sample_world
  = (Ret (Some sample_addr), sample_world) /\
  WithVersion (Some sample_addr) (ApiVersion sample_config) sample_world
  = (Ret (Some sample_addr), sample_world) /\
  WithLogger (Some sample_addr) (Logger sample_config) sample_world
  = (Ret (Some sample_addr), sample_world).
Proof.
  apply (setters_write_back sample_world sample_addr sample_config).
  reflexivity.
Defined.


(** X12. The setters take their argument as it is.  On a non-nil
    configuration whose client and logger are set, [WithCredentials],
    [WithBaseURL] and [WithVersion] keep them set; after [WithClient(client)]
    they are set exactly when [client] is not nil, and after
    [WithLogger(logger)] exactly when [logger] is not nil: a nil argument is
    stored, not refused. *)
Theorem setters_and_capabilities (s : setter) (w : World) (a : addr) (c : Config) :
  heap w !! a = Some c ->
  capabilities_set c ->
  exists c' : Config,
    heap (call s (Some a) w).2 !! a = Some c' /\
    (capabilities_set c' <->
     match s with
     | SetTransport client => client <> HTTPClient_nil
     | SetLogger logger => logger <> Logger_nil
     | _ => True
     end).
Proof.
  intros live [Hc Hl]. exists (effect s c).
  rewrite (call_live w a c live). cbn [snd].
  split; [apply live_after_write|].
  unfold capabilities_set.
  destruct s; cbn [effect Client Logger]; tauto.
Qed.

Lemma setters_and_capabilities_witness :
  exists c' : Config,
    heap (call (SetTransport HTTPClient_nil) (Some sample_addr) sample_world).2
      !! sample_addr = Some c' /\
    (capabilities_set c' <-> HTTPClient_nil <> HTTPClient_nil).
Proof.
  apply (setters_and_capabilities (SetTransport HTTPClient_nil)
           sample_world sample_addr sample_config).
  - reflexivity.
  - split; discriminate.
Defined.

(** ** Allocation *)

Lemma call_dom (s : setter) (p : ptr) (w : World) :
  dom (heap (call s p w).2) = dom (heap w).
Proof.
  destruct p as [a|]; [|now rewrite call_nil].
  destruct (heap w !! a) as [c|] eqn:E.
  - rewrite (call_live w a c E).
    change (dom (<[a := effect s c]> (heap w)) = dom (heap w)).
    rewrite dom_insert_L. apply subseteq_union_1_L, singleton_subseteq_l.
    now apply elem_of_dom_2 in E.
  - now rewrite (call_dangling s w a E).
Qed.

Lemma step_dom (w : World) (o : op) :
  dom (heap w) ⊆ dom (heap (step w o)) /\
  size (dom (heap (step w o)))
  = size (dom (heap w)) + allocations [o].
Proof.
  destruct o as [u p k|s c|c sv ep]; cbn [step allocations].
  - rewrite NewConfig_run. cbn [snd]. rewrite with_heap_heap, dom_insert_L.
    split; [set_solver|].
    rewrite size_union by (pose proof (is_fresh (dom (heap w))); set_solver).
    rewrite size_singleton. lia.
  - rewrite call_dom. split; [reflexivity | lia].
  - rewrite GetEndpointURL_state. split; [reflexivity | lia].
Qed.

Lemma allocations_cons (o : op) (ops : list op) :
  allocations (o :: ops) = allocations [o] + allocations ops.
Proof. now destruct o. Qed.

(** X13. Only [NewConfig] allocates, one struct per call, and nothing is
    ever freed: after any sequence of calls of the file's functions the
    number of configurations has grown by the number of [NewConfig] calls in
    it, and every reference that was live before is live after. *)
Theorem run_allocates (ops : list op) (w : World) :
  size (dom (heap (run ops w))) = size (dom (heap w)) + allocations ops /\
  forall a : addr, is_Some (heap w !! a) -> is_Some (heap (run ops w) !! a).
Proof.
  revert w. induction ops as [|o ops IH]; intros w.
  - cbn [run fold_left allocations]. split; [lia | auto].
  - change (run (o :: ops) w) with (run ops (step w o)).
    destruct (IH (step w o)) as [Hsize Hlive].
    destruct (step_dom w o) as [Hsub Hone].
    rewrite Hsize, Hone, (allocations_cons o ops). split; [lia|].
    intros a Ha. apply Hlive. apply elem_of_dom. apply Hsub. now apply elem_of_dom.
Qed.

(** X14. No function of the file assigns the package variables, so the
    defaults never wear off: after any sequence of calls since the package
    was initialised, [NewConfig] still returns a new configuration whose
    client is [http.DefaultClient] and whose logger is the [LeveledLogger]
    of level [LevelNone], both non-nil. *)
Theorem NewConfig_after_any_run (ops : list op) (username password apiKey : string) :
  exists (a : addr) (c : Config),
    NewConfig username password apiKey (run ops init_world)
    = (Ret (Some a),
       with_heap (<[a := c]> (heap (run ops init_world))) (run ops init_world)) /\
    heap (run ops init_world) !! a = None /\
    Client c = http_DefaultClient /\
    Logger c = Logger_leveled {| Level_of := LevelNone |} /\
    capabilities_set c.
Proof.
  destruct (run_vars ops init_world init_world_vars) as [Hc Hl].
  do 2 eexists. split; [apply NewConfig_run|].
  split; [apply fresh_not_live|].
  cbn [Client Logger]. unfold capabilities_set. cbn [Client Logger].
  rewrite Hc, Hl. repeat split; discriminate.
Qed.
